(** * crt_cp.py: certificate distribution driven by the INFO manifest

    A shallow embedding of [src/crt_cp.py] and the properties of its
    manifest resolver ([load_service_info]) and copy orchestrator
    ([copy_certificates], [process_certificates], [main]).

    Python values coming out of [json.loads] are the inductive [json];
    the file system is a finite map from resolved locations to nodes;
    the script itself is written in a state-and-exception monad over a
    [world] that carries the file system, the list of file-system calls
    issued so far, the records handed to the logger and what was printed
    on the error stream. *)

From Stdlib Require Import ZArith Ascii String List.
From stdpp Require Import base option list gmap strings fin_maps.
Import ListNotations.
Set Warnings "-register-all".
Local Open Scope string_scope.
Local Open Scope list_scope.

(** ** Python values and exceptions *)

(** What [json.loads] can return.  A float is kept only up to whether it
    is zero, which is all the script can observe of it (truthiness of
    [isPkg]). *)
Inductive json : Type :=
  | JNull
  | JBool (b : bool)
  | JInt (z : Z)
  | JFloat (is_zero : bool)
  | JStr (s : string)
  | JList (items : list json)
  | JDict (entries : list (string * json)).

(** The exceptions that the modelled calls can raise. *)
Inductive exn : Type :=
  | KeyError (key : string)
  | TypeError
  | FileNotFoundError
  | NotADirectoryError
  | IsADirectoryError
  | FileExistsError
  | SameFileError
  | JSONDecodeError
  | UnicodeDecodeError.

(** [bool(v)] *)
Definition truthy (v : json) : bool :=
  match v with
  | JNull => false
  | JBool b => b
  | JInt z => negb (Z.eqb z 0)
  | JFloat is_zero => negb is_zero
  | JStr s => negb (String.eqb s "")
  | JList items => match items with [] => false | _ => true end
  | JDict entries => match entries with [] => false | _ => true end
  end.

(** Lookup in a dict: the entry list is the dict's items in insertion
    order. *)
Fixpoint dict_get (key : string) (entries : list (string * json)) : option json :=
  match entries with
  | [] => None
  | (k, v) :: rest => if String.eqb k key then Some v else dict_get key rest
  end.

(** [v[key]] for a string key. *)
Definition subscript (v : json) (key : string) : exn + json :=
  match v with
  | JDict entries =>
      match dict_get key entries with
      | Some x => inr x
      | None => inl (KeyError key)
      end
  | _ => inl TypeError
  end.

Definition is_str (s : string) (v : json) : bool :=
  match v with
  | JStr t => String.eqb t s
  | _ => false
  end.

(** [key in v] for a string key: key membership on a dict, element
    membership on a list, substring test on a string, [TypeError] on
    anything else. *)
Definition contains (v : json) (key : string) : exn + bool :=
  match v with
  | JDict entries => inr (bool_decide (is_Some (dict_get key entries)))
  | JList items => inr (existsb (is_str key) items)
  | JStr s => inr (bool_decide (is_Some (String.index 0 key s)))
  | _ => inl TypeError
  end.

Fixpoint chars (s : string) : list json :=
  match s with
  | EmptyString => []
  | String c rest => JStr (String c EmptyString) :: chars rest
  end.

(** [iter(v)], run to the end: the elements a [for] loop would see. *)
Definition iterate (v : json) : exn + list json :=
  match v with
  | JList items => inr items
  | JDict entries => inr (map (fun kv => JStr (fst kv)) entries)
  | JStr s => inr (chars s)
  | _ => inl TypeError
  end.

(** ** Paths *)

(** An absolute POSIX path as pathlib keeps it: its parts after the
    root.  [".."] parts are kept (pathlib does not collapse them). *)
Definition path : Type := list string.

Fixpoint split_on (sep : ascii) (s : string) : list string :=
  match s with
  | EmptyString => [EmptyString]
  | String c rest =>
      if Ascii.eqb c sep then EmptyString :: split_on sep rest
      else match split_on sep rest with
           | [] => [String c EmptyString]
           | seg :: segs => String c seg :: segs
           end
  end.

Definition keeps_part (seg : string) : bool :=
  negb (String.eqb seg "") && negb (String.eqb seg ".").

Definition parts (s : string) : list string :=
  List.filter keeps_part (split_on "/"%char s).

Definition is_absolute (s : string) : bool :=
  match s with
  | String c _ => Ascii.eqb c "/"%char
  | EmptyString => false
  end.

(** [p / s] for a string [s]: an absolute [s] replaces [p]; empty and
    ["."] parts are dropped. *)
Definition joinpath (p : path) (s : string) : path :=
  if is_absolute s then parts s else p ++ parts s.

(** [p / v] for a value read from the manifest: only a string is
    accepted. *)
Definition truediv (p : path) (v : json) : exn + path :=
  match v with
  | JStr s => inr (joinpath p s)
  | _ => inl TypeError
  end.

Definition basename (p : path) : string := List.last p "".

(** ** Pre-defined parameters *)

Definition CERT_FILES : list string := ["cert.pem"; "privkey.pem"; "fullchain.pem"].
Definition BASE_PATH : path := ["usr"; "syno"; "etc"; "certificate"].
Definition PKG_BASE_PATH : path := ["usr"; "local"; "etc"; "certificate"].
Definition ARCHIVE_PATH : path := joinpath BASE_PATH "_archive".

(** ** The file system *)

(** What a regular file holds, up to what [json.loads(read_text())]
    makes of it: a JSON document denoting [doc], text that is not JSON,
    or bytes that do not decode as text. *)
Inductive content : Type :=
  | JsonText (doc : json)
  | PlainText (text : string)
  | Undecodable (bytes : string).

Inductive node : Type :=
  | Dir
  | File (data : content) (mtime : Z).

(** Nodes by resolved location (parts from the root, no [".."]).  No
    symbolic links, one user with full permissions, unlimited space. *)
Abbreviation fsmap := (gmap (list string) node).

(** The root directory always exists. *)
Definition node_at (F : fsmap) (loc : list string) : option node :=
  match loc with
  | [] => Some Dir
  | _ => F !! loc
  end.

Definition step_into (cur : list string) (seg : string) : list string :=
  if String.eqb seg ".." then removelast cur else cur ++ [seg].

(** Path resolution as the kernel does it: every part is looked up in
    the directory reached so far, which has to exist and be a directory.
    The location reached by the last part is returned unchecked. *)
Fixpoint walk (F : fsmap) (cur : list string) (segs : path) : exn + list string :=
  match segs with
  | [] => inr cur
  | seg :: rest =>
      match node_at F cur with
      | Some Dir => walk F (step_into cur seg) rest
      | Some (File _ _) => inl NotADirectoryError
      | None => inl FileNotFoundError
      end
  end.

Definition resolve (F : fsmap) (p : path) : exn + list string := walk F [] p.

(** [os.stat(p)] *)
Definition stat (F : fsmap) (p : path) : exn + (list string * node) :=
  match resolve F p with
  | inl e => inl e
  | inr loc =>
      match node_at F loc with
      | Some n => inr (loc, n)
      | None => inl FileNotFoundError
      end
  end.

(** [os.path.isdir(p)] *)
Definition is_dir (F : fsmap) (p : path) : bool :=
  match stat F p with
  | inr (_, Dir) => true
  | _ => false
  end.

(** [os.mkdir(p)] *)
Definition os_mkdir (p : path) (F : fsmap) : exn + fsmap :=
  match resolve F p with
  | inl e => inl e
  | inr loc =>
      match node_at F loc with
      | Some _ => inl FileExistsError
      | None => inr (<[loc := Dir]> F)
      end
  end.

(** [Path.mkdir(parents=False, exist_ok=True)]: the exception raised, if
    any, and the file system left behind. *)
Definition mkdir_exist_ok (p : path) (F : fsmap) : option exn * fsmap :=
  match os_mkdir p F with
  | inr F' => (None, F')
  | inl FileNotFoundError => (Some FileNotFoundError, F)
  | inl e => if is_dir F p then (None, F) else (Some e, F)
  end.

(** [Path.mkdir(parents=True, exist_ok=True)], by recursion on the
    reversed parts: the lexical parent is the tail.  Parents created
    before a failure stay. *)
Fixpoint mkdir_rev (rp : list string) (F : fsmap) : option exn * fsmap :=
  match os_mkdir (rev rp) F with
  | inr F' => (None, F')
  | inl FileNotFoundError =>
      match rp with
      | [] => (Some FileNotFoundError, F)
      | _ :: rparent =>
          match mkdir_rev rparent F with
          | (Some e, F1) => (Some e, F1)
          | (None, F1) => mkdir_exist_ok (rev rp) F1
          end
      end
  | inl e => if is_dir F (rev rp) then (None, F) else (Some e, F)
  end.

Definition path_mkdir (p : path) (F : fsmap) : option exn * fsmap :=
  mkdir_rev (rev p) F.

(** [open(p, 'rb').read()] together with the file's metadata. *)
Definition open_read (F : fsmap) (p : path) : exn + (content * Z) :=
  match resolve F p with
  | inl e => inl e
  | inr loc =>
      match node_at F loc with
      | None => inl FileNotFoundError
      | Some Dir => inl IsADirectoryError
      | Some (File data mtime) => inr (data, mtime)
      end
  end.

(** [os.path.samefile], with [OSError] read as "not the same". *)
Definition samefile (F : fsmap) (a b : path) : bool :=
  match stat F a, stat F b with
  | inr (la, _), inr (lb, _) => bool_decide (la = lb)
  | _, _ => false
  end.

(** [shutil.copy2(src, dst)]: a directory [dst] receives the file under
    the source's base name; data and metadata are copied. *)
Definition copy_target (F : fsmap) (src dst : path) : path :=
  if is_dir F dst then dst ++ [basename src] else dst.

Definition copy2 (src dst : path) (F : fsmap) : exn + fsmap :=
  let dst' := copy_target F src dst in
  if samefile F src dst' then inl SameFileError
  else
    match open_read F src with
    | inl e => inl e
    | inr (data, mtime) =>
        match resolve F dst' with
        | inl e => inl e
        | inr loc =>
            match node_at F loc with
            | Some Dir => inl IsADirectoryError
            | _ => inr (<[loc := File data mtime]> F)
            end
        end
    end.

(** [json.loads(p.read_text())] *)
Definition json_loads (data : content) : exn + json :=
  match data with
  | JsonText doc => inr doc
  | PlainText _ => inl JSONDecodeError
  | Undecodable _ => inl UnicodeDecodeError
  end.

Definition read_json (F : fsmap) (p : path) : exn + json :=
  match open_read F p with
  | inl e => inl e
  | inr (data, _) => json_loads data
  end.

(** ** The world and the monad of the script *)

Inductive syscall : Type :=
  | SysReadText (p : path)
  | SysMkdir (p : path) (err : option exn)
  | SysCopy2 (src dst : path) (err : option exn).

Inductive level : Type := INFO | WARNING | ERROR.

(** The messages of the script, by format string. *)
Inductive log_msg : Type :=
  | MsgCopyCert (display_name : json)
  | MsgCopyFail (src dest : path) (e : exn)
  | MsgNotInInfo (src_dir_name : string)
  | MsgLoadNotFound (info : path)
  | MsgLoadInvalidJson (info : path)
  | MsgLoadFail (info : path) (e : exn).

(** [calls] is the history of file-system calls with their outcomes,
    [logs] the records handed to the logger, [stderr] what [print]
    wrote to the error stream; all three only grow. *)
Record world : Type := World {
  fs : fsmap;
  calls : list syscall;
  logs : list (level * log_msg);
  stderr : list string
}.

Definition M (A : Type) : Type := world -> (exn + A) * world.

Definition ret {A} (a : A) : M A := fun w => (inr a, w).

Definition raise {A} (e : exn) : M A := fun w => (inl e, w).

Definition bind {A B} (m : M A) (k : A -> M B) : M B :=
  fun w =>
    match m w with
    | (inr a, w') => k a w'
    | (inl e, w') => (inl e, w')
    end.

(** [try: m  except Exception as e: h e] *)
Definition try_except {A} (m : M A) (h : exn -> M A) : M A :=
  fun w =>
    match m w with
    | (inr a, w') => (inr a, w')
    | (inl e, w') => h e w'
    end.

Definition lift {A} (r : exn + A) : M A :=
  match r with
  | inr a => ret a
  | inl e => raise e
  end.

Notation "x <- m ;; k" := (bind m (fun x => k))
  (at level 100, m at next level, right associativity).
Notation "m ;;; k" := (bind m (fun _ => k))
  (at level 100, right associativity).

Definition called (c : syscall) (w : world) : world :=
  World (fs w) (calls w ++ [c]) (logs w) (stderr w).

Definition with_fs (F : fsmap) (w : world) : world :=
  World F (calls w) (logs w) (stderr w).

Definition logged (lvl : level) (msg : log_msg) (w : world) : world :=
  World (fs w) (calls w) (logs w ++ [(lvl, msg)]) (stderr w).


Definition log (lvl : level) (msg : log_msg) : M unit :=
  fun w => (inr tt, logged lvl msg w).


Definition outcome (err : option exn) : exn + unit :=
  match err with
  | None => inr tt
  | Some e => inl e
  end.

(** [p.mkdir(parents=True, exist_ok=True)] *)
Definition sys_mkdir (p : path) : M unit :=
  fun w =>
    let '(err, F') := path_mkdir p (fs w) in
    (outcome err, with_fs F' (called (SysMkdir p err) w)).

(** [shutil.copy2(src, dest)] *)
Definition sys_copy2 (src dest : path) : M unit :=
  fun w =>
    match copy2 src dest (fs w) with
    | inl e => (inl e, called (SysCopy2 src dest (Some e)) w)
    | inr F' => (inr tt, with_fs F' (called (SysCopy2 src dest None) w))
    end.

(** [json.loads(p.read_text())] *)
Definition sys_read_json (p : path) : M json :=
  fun w => (read_json (fs w) p, called (SysReadText p) w).

(** ** The script *)

(** Line 50: the destination directory of a service. *)
Definition target_dir_of (service : json) : exn + path :=
  match subscript service "isPkg" with
  | inl e => inl e
  | inr is_pkg =>
      let root := if truthy is_pkg then PKG_BASE_PATH else BASE_PATH in
      match subscript service "subscriber" with
      | inl e => inl e
      | inr subscriber =>
          match truediv root subscriber with
          | inl e => inl e
          | inr p =>
              match subscript service "service" with
              | inl e => inl e
              | inr name => truediv p name
              end
          end
      end
  end.

(** Lines 50-53: destination directory, [mkdir], progress line. *)
Definition prepare_target (service : json) : M path :=
  target_dir <- lift (target_dir_of service) ;;
  sys_mkdir target_dir ;;;
  display_name <- lift (subscript service "display_name") ;;
  log INFO (MsgCopyCert display_name) ;;;
  ret target_dir.

(** Lines 56-62: the loop over the certificate files, [success] being
    the flag on entry. *)
Fixpoint copy_cert_files (src_dir target_dir : path) (files : list string)
    (success : bool) : M bool :=
  match files with
  | [] => ret success
  | cert_file :: rest =>
      let src := joinpath src_dir cert_file in
      let dest := joinpath target_dir cert_file in
      ok <- try_except (sys_copy2 src dest ;;; ret success)
              (fun e => log WARNING (MsgCopyFail src dest e) ;;; ret false) ;;
      copy_cert_files src_dir target_dir rest ok
  end.

Definition copy_certificates (src_dir : path) (service : json) : M bool :=
  target_dir <- prepare_target service ;;
  copy_cert_files src_dir target_dir CERT_FILES true.

(** Lines 79-95.  The three [except] clauses are tried in order. *)
Definition load_service_info (archive_path : path) (src_dir_name : string)
    : M (json * bool) :=
  let info := joinpath archive_path "INFO" in
  try_except
    (services <- sys_read_json info ;;
     present <- lift (contains services src_dir_name) ;;
     if negb present then
       log ERROR (MsgNotInInfo src_dir_name) ;;;
       ret (JList [], false)
     else
       record <- lift (subscript services src_dir_name) ;;
       found <- lift (subscript record "services") ;;
       ret (found, true))
    (fun e =>
       match e with
       | FileNotFoundError => log ERROR (MsgLoadNotFound info)
       | JSONDecodeError => log ERROR (MsgLoadInvalidJson info)
       | _ => log ERROR (MsgLoadFail info e)
       end ;;;
       ret (JList [], false)).

(** [all(copy_certificates(src_dir, service) for service in items)]: the
    generator is consumed up to the first false result. *)
Fixpoint all_copied (src_dir : path) (items : list json) : M bool :=
  match items with
  | [] => ret true
  | service :: rest =>
      ok <- copy_certificates src_dir service ;;
      if ok then all_copied src_dir rest else ret false
  end.

(** The iterator that [for service in services] walks, as it stands
    when the generator expression is created (line 113). *)
Definition process_certificates (src_dir_name : string) : M bool :=
  let src_dir := joinpath ARCHIVE_PATH src_dir_name in
  loaded <- load_service_info ARCHIVE_PATH src_dir_name ;;
  let '(services, success) := loaded in
  if negb success then ret false
  else
    items <- lift (iterate services) ;;
    all_copied src_dir items.





(** ** Auxiliary notions used by the statements *)

(** The record logged for an exception caught by the [except] clauses
    of [load_service_info]. *)
Definition load_failure (info : path) (e : exn) : log_msg :=
  match e with
  | FileNotFoundError => MsgLoadNotFound info
  | JSONDecodeError => MsgLoadInvalidJson info
  | _ => MsgLoadFail info e
  end.

(** The manifest at [archive_path/INFO] parses, holds the batch, and
    the batch record holds [found] under [services]. *)
Definition registered (archive_path : path) (src_dir_name : string)
    (F : fsmap) (found : json) : Prop :=
  ∃ doc record,
    read_json F (joinpath archive_path "INFO") = inr doc ∧
    contains doc src_dir_name = inr true ∧
    subscript doc src_dir_name = inr record ∧
    subscript record "services" = inr found.

(** One pass of the [for] loop of [copy_certificates] on [cert_file],
    ended by [err]: the call it issues and the record it logs. *)
Definition attempt_call (src_dir target_dir : path) (cert_file : string)
    (err : option exn) : syscall :=
  SysCopy2 (joinpath src_dir cert_file) (joinpath target_dir cert_file) err.

Definition attempt_warning (src_dir target_dir : path) (cert_file : string)
    (err : option exn) : list (level * log_msg) :=
  match err with
  | None => []
  | Some e =>
      [(WARNING, MsgCopyFail (joinpath src_dir cert_file) (joinpath target_dir cert_file) e)]
  end.

Definition copied (err : option exn) : bool :=
  match err with
  | None => true
  | Some _ => false
  end.

(** Starting from [w], every service of [items] in turn had its
    destination prepared and its three files copied, all three [copy2]
    calls succeeding; [w'] is the world after the last one. *)
Inductive every_service_copied (src_dir : path) : list json → world → world → Prop :=
  | every_nil w :
      every_service_copied src_dir [] w w
  | every_cons service rest w target_dir w1 w2 w3 :
      prepare_target service w = (inr target_dir, w1) →
      copy_cert_files src_dir target_dir CERT_FILES true w1 = (inr true, w2) →
      calls w2 = calls w1
                 ++ map (fun cert_file => attempt_call src_dir target_dir cert_file None)
                      CERT_FILES →
      every_service_copied src_dir rest w2 w3 →
      every_service_copied src_dir (service :: rest) w w3.


(** Every node of [F] is still there in [F'] with the same kind. *)
Definition keeps_kinds (F F' : fsmap) : Prop :=
  ∀ loc,
    match node_at F loc with
    | Some Dir => node_at F' loc = Some Dir
    | Some (File _ _) => ∃ data mtime, node_at F' loc = Some (File data mtime)
    | None => True
    end.

(** [F'] is [F] with directories added at free locations. *)
Definition only_new_dirs (F F' : fsmap) : Prop :=
  ∀ loc,
    node_at F' loc = node_at F loc ∨
    (node_at F loc = None ∧ node_at F' loc = Some Dir).



(** What one successful call of a run over the batch staged in
    [src_dir] does to the file system: a [mkdir] adds directories, a
    [copy2] writes the data of the staged [cert_file] to a location
    named [cert_file] that is neither a directory nor the staged file. *)
Inductive batch_step (src_dir : path) (F F' : fsmap) : Prop :=
  | step_dirs :
      only_new_dirs F F' →
      batch_step src_dir F F'
  | step_file cert_file sloc loc data mtime :
      In cert_file CERT_FILES →
      resolve F (joinpath src_dir cert_file) = inr sloc →
      node_at F sloc = Some (File data mtime) →
      last loc = Some cert_file →
      node_at F loc ≠ Some Dir →
      sloc ≠ loc →
      F' = <[loc := File data mtime]> F →
      batch_step src_dir F F'.

(** ** Sample inputs *)

Definition descriptor (is_pkg : bool) (subscriber service display_name : string) : json :=
  JDict [("isPkg", JBool is_pkg); ("subscriber", JStr subscriber);
         ("service", JStr service); ("display_name", JStr display_name)].

Definition acme_web : json := descriptor false "acme" "web" "ACME Web".
Definition acme_mail : json := descriptor false "acme" "mail" "ACME Mail".

Definition manifest_of (services : json) : json :=
  JDict [("batch1", JDict [("services", services)])].

Definition system_dirs : list (list string * node) :=
  [(["usr"], Dir); (["usr"; "syno"], Dir); (["usr"; "syno"; "etc"], Dir);
   (BASE_PATH, Dir); (ARCHIVE_PATH, Dir)].

Definition info_file (data : content) : list (list string * node) :=
  [(ARCHIVE_PATH ++ ["INFO"], File data 5)].

Definition staged (batch : string) : list (list string * node) :=
  [(ARCHIVE_PATH ++ [batch], Dir);
   (ARCHIVE_PATH ++ [batch; "cert.pem"], File (PlainText "leaf") 1);
   (ARCHIVE_PATH ++ [batch; "privkey.pem"], File (PlainText "key") 2);
   (ARCHIVE_PATH ++ [batch; "fullchain.pem"], File (PlainText "chain") 3)].

Definition world_of (nodes : list (list string * node)) : world :=
  World (list_to_map nodes) [] [] [].

(** No manifest at all. *)
Definition world_no_manifest : world := world_of system_dirs.

(** A manifest that is not JSON. *)
Definition world_garbled_manifest : world :=
  world_of (system_dirs ++ info_file (PlainText "not json")).

(** One service, all three files staged. *)
Definition world_ready : world :=
  world_of (system_dirs ++ info_file (JsonText (manifest_of (JList [acme_web])))
            ++ staged "batch1").

(** Two services, nothing staged. *)
Definition world_unstaged : world :=
  world_of (system_dirs
            ++ info_file (JsonText (manifest_of (JList [acme_web; acme_mail])))).


(** The place of the subscriber directory is taken by a regular file. *)
Definition world_blocked : world :=
  world_of (system_dirs ++ [(BASE_PATH ++ ["acme"], File (PlainText "") 0)]
            ++ info_file (JsonText (manifest_of (JList [acme_web])))
            ++ staged "batch1").

(** ** Console output of the log records *)

(** The escape character that starts a colour sequence. *)
Definition ESC : string := String (ascii_of_nat 27) EmptyString.

(** The [COLORS] table of lines 18-23, in insertion order. *)
Definition COLORS : list (string * string) :=
  [("INFO", ESC ++ "[0;32m"); ("WARN", ESC ++ "[1;33m");
   ("ERROR", ESC ++ "[1;31m"); ("NC", ESC ++ "[0m")]%string.

Fixpoint colors_lookup (key : string) (table : list (string * string)) : option string :=
  match table with
  | [] => None
  | (k, v) :: rest => if String.eqb k key then Some v else colors_lookup key rest
  end.

(** [table[key]] *)
Definition colors_item (table : list (string * string)) (key : string) : exn + string :=
  match colors_lookup key table with
  | Some v => inr v
  | None => inl (KeyError key)
  end.

(** [table.get(key, default)] *)
Definition colors_get (table : list (string * string)) (key default : string) : string :=
  match colors_lookup key table with
  | Some v => v
  | None => default
  end.

(** [record.levelname] for the three levels the script logs at. *)
Definition levelname (lvl : level) : string :=
  match lvl with
  | INFO => "INFO"
  | WARNING => "WARNING"
  | ERROR => "ERROR"
  end.

(** [ConsoleFormatter.format] (lines 28-31) on a record of level [lvl]
    whose creation time renders as [timestamp] and whose message is
    [message]. *)
Definition format (timestamp : string) (lvl : level) (message : string) : exn + string :=
  match colors_item COLORS "NC" with
  | inl e => inl e
  | inr default =>
      let color := colors_get COLORS (levelname lvl) default in
      match colors_item COLORS "NC" with
      | inl e => inl e
      | inr nc =>
          inr (timestamp ++ " " ++ color ++ "[" ++ levelname lvl ++ "]" ++ nc
               ++ " " ++ message)%string
      end
  end.

(** ** Notions used by the statements about whole runs *)

(** The warning a failed [copy2] call gives rise to. *)
Definition failed_copy (c : syscall) : option log_msg :=
  match c with
  | SysCopy2 src dest (Some e) => Some (MsgCopyFail src dest e)
  | _ => None
  end.

Definition warning_of (r : level * log_msg) : option log_msg :=
  match r with
  | (WARNING, msg) => Some msg
  | _ => None
  end.

(** The calls [nc] and log records [nl] a stretch of a run over the
    batch staged in [src_dir] may add: the warnings are those of the
    failed copies, in order; every copy reads a certificate file of
    [src_dir] and writes the file of the same name in a directory whose
    [mkdir] succeeded in the same stretch; the manifest is not read. *)
Definition trace_ok (src_dir : path) (nc : list syscall) (nl : list (level * log_msg)) : Prop :=
  omap warning_of nl = omap failed_copy nc ∧
  (∀ src dest err, In (SysCopy2 src dest err) nc →
     ∃ target_dir cert_file,
       In cert_file CERT_FILES ∧
       src = joinpath src_dir cert_file ∧
       dest = joinpath target_dir cert_file ∧
       In (SysMkdir target_dir None) nc) ∧
  (∀ p, ¬ In (SysReadText p) nc).

(** More sample inputs. *)


(** The batch is registered with an empty object in place of the
    service list. *)
Definition world_no_services : world :=
  world_of (system_dirs ++ info_file (JsonText (manifest_of (JDict []))) ++ staged "batch1").

(** The batch is registered with an object keyed by service name in
    place of the service list. *)
Definition world_services_by_name : world :=
  world_of (system_dirs
            ++ info_file (JsonText (manifest_of (JDict [("web", acme_web)])))
            ++ staged "batch1").

(** The manifest is a list of batch names. *)
Definition world_manifest_list : world :=
  world_of (system_dirs ++ info_file (JsonText (JList [JStr "batch1"])) ++ staged "batch1").

(** ** The manifest resolver *)

Section Resolver.

Variables (archive_path : path) (src_dir_name : string).

Lemma load_service_info_read_error w e :
  let info := joinpath archive_path "INFO" in
  read_json (fs w) info = inl e →
  load_service_info archive_path src_dir_name w
  = (inr (JList [], false),
     logged ERROR (load_failure info e) (called (SysReadText info) w)).
Proof.
  intros info Hread.
  unfold load_service_info, try_except, bind, sys_read_json. fold info.
  rewrite Hread. by destruct e.
Qed.

Lemma load_service_info_parsed w doc :
  let info := joinpath archive_path "INFO" in
  read_json (fs w) info = inr doc →
  load_service_info archive_path src_dir_name w
  = let w1 := called (SysReadText info) w in
    match contains doc src_dir_name with
    | inl e => (inr (JList [], false), logged ERROR (load_failure info e) w1)
    | inr false => (inr (JList [], false), logged ERROR (MsgNotInInfo src_dir_name) w1)
    | inr true =>
        match subscript doc src_dir_name with
        | inl e => (inr (JList [], false), logged ERROR (load_failure info e) w1)
        | inr record =>
            match subscript record "services" with
            | inl e => (inr (JList [], false), logged ERROR (load_failure info e) w1)
            | inr found => (inr (found, true), w1)
            end
        end
    end.
Proof.
  intros info Hread.
  unfold load_service_info, try_except, bind, sys_read_json. fold info.
  rewrite Hread. cbn.
  destruct (contains doc src_dir_name) as [e|[|]]; cbn.
  - by destruct e.
  - destruct (subscript doc src_dir_name) as [e|record]; cbn.
    + by destruct e.
    + destruct (subscript record "services") as [e|found]; cbn; [by destruct e | done].
  - done.
Qed.

Lemma load_service_info_returns w :
  ∃ services success w',
    load_service_info archive_path src_dir_name w = (inr (services, success), w') ∧
    fs w' = fs w ∧
    calls w' = calls w ++ [SysReadText (joinpath archive_path "INFO")] ∧
    stderr w' = stderr w ∧
    (success = true →
       registered archive_path src_dir_name (fs w) services ∧ logs w' = logs w) ∧
    (success = false →
       services = JList [] ∧ ∃ msg, logs w' = logs w ++ [(ERROR, msg)]).
Proof.
  destruct (read_json (fs w) (joinpath archive_path "INFO")) as [e|doc] eqn:Hread.
  - rewrite (load_service_info_read_error _ _ Hread).
    eexists _, _, _. split; [done|]. repeat split; try done. eauto.
  - rewrite (load_service_info_parsed _ _ Hread). cbn zeta.
    destruct (contains doc src_dir_name) as [e|[|]] eqn:Hin.
    + eexists _, _, _. split; [done|]. repeat split; try done. eauto.
    + destruct (subscript doc src_dir_name) as [e|record] eqn:Hrec.
      * eexists _, _, _. split; [done|]. repeat split; try done. eauto.
      * destruct (subscript record "services") as [e|found] eqn:Hsvc.
        -- eexists _, _, _. split; [done|]. repeat split; try done. eauto.
        -- eexists _, _, _. split; [done|]. repeat split; try done.
           exists doc, record. done.
    + eexists _, _, _. split; [done|]. repeat split; try done. eauto.
Qed.

Lemma registered_loads w found :
  registered archive_path src_dir_name (fs w) found →
  load_service_info archive_path src_dir_name w
  = (inr (found, true), called (SysReadText (joinpath archive_path "INFO")) w).
Proof.
  intros (doc & record & Hread & Hin & Hrec & Hsvc).
  rewrite (load_service_info_parsed _ _ Hread). cbn zeta.
  by rewrite Hin, Hrec, Hsvc.
Qed.

End Resolver.

(** C9.  [load_service_info] is total: for every archive path, batch
    identifier and world it returns a pair and never raises; the file
    system is left as it was; the pair is [(found, True)] exactly when
    the manifest parses, contains the batch as a key and the batch
    record has a [services] entry [found]; in every other case (read
    error, malformed JSON, a top level on which [in] or the subscript
    fails, a batch record without [services]) it is [([], False)]. *)
Theorem load_service_info_total (archive_path : path) (src_dir_name : string) (w : world) :
  ∃ services success w',
    load_service_info archive_path src_dir_name w = (inr (services, success), w') ∧
    fs w' = fs w ∧
    (success = true ↔ registered archive_path src_dir_name (fs w) services) ∧
    (success = false → services = JList []).
Proof.
  destruct (load_service_info_returns archive_path src_dir_name w)
    as (services & success & w' & Hrun & Hfs & _ & _ & Hok & Hfail).
  exists services, success, w'. split; [done|]. split; [done|]. split; [split|].
  - intros Hs. by apply Hok.
  - intros Hreg. apply (registered_loads _ _ w) in Hreg. congruence.
  - intros Hs. by apply Hfail.
Qed.

(** C4 (as amended).  Whenever [load_service_info] reports failure it
    returns exactly [([], False)], leaves the file system untouched and
    hands one ERROR record to the logger; the record, not the returned
    value, tells the four conditions apart: manifest missing, manifest
    not JSON, batch key absent, any other exception. *)
Theorem load_service_info_failure (archive_path : path) (src_dir_name : string)
    (w w' : world) (services : json) :
  load_service_info archive_path src_dir_name w = (inr (services, false), w') →
  let info := joinpath archive_path "INFO" in
  services = JList [] ∧
  fs w' = fs w ∧
  ∃ msg,
    w' = logged ERROR msg (called (SysReadText info) w) ∧
    ((read_json (fs w) info = inl FileNotFoundError ∧ msg = MsgLoadNotFound info) ∨
     (read_json (fs w) info = inl JSONDecodeError ∧ msg = MsgLoadInvalidJson info) ∨
     (∃ doc, read_json (fs w) info = inr doc ∧
             contains doc src_dir_name = inr false ∧
             msg = MsgNotInInfo src_dir_name) ∨
     (∃ e, e ≠ FileNotFoundError ∧ e ≠ JSONDecodeError ∧ msg = MsgLoadFail info e)).
Proof.
  intros Hrun info.
  assert (Hother : ∀ e, e ≠ FileNotFoundError → e ≠ JSONDecodeError →
            ∃ e', e' ≠ FileNotFoundError ∧ e' ≠ JSONDecodeError ∧
                  load_failure info e = MsgLoadFail info e').
  { intros e H1 H2. exists e. by destruct e. }
  destruct (read_json (fs w) info) as [e|doc] eqn:Hread.
  - rewrite (load_service_info_read_error _ _ _ _ Hread) in Hrun.
    injection Hrun as <- <-. do 2 (split; [done|]).
    eexists; split; [done|].
    destruct e; first [by left | by right; left | by right; right; right; apply Hother].
  - rewrite (load_service_info_parsed _ _ _ _ Hread) in Hrun. cbn zeta in Hrun.
    destruct (contains doc src_dir_name) as [e|[|]] eqn:Hin.
    + injection Hrun as <- <-. do 2 (split; [done|]).
      eexists; split; [done|]. right; right; right. apply Hother.
      all: destruct doc; try discriminate; by injection Hin as <-.
    + destruct (subscript doc src_dir_name) as [e|record] eqn:Hrec.
      * injection Hrun as <- <-. do 2 (split; [done|]).
        eexists; split; [done|]. right; right; right. apply Hother.
        all: unfold subscript in Hrec; destruct doc; try (by injection Hrec as <-).
        all: destruct (dict_get src_dir_name entries); [done|]; by injection Hrec as <-.
      * destruct (subscript record "services") as [e|found] eqn:Hsvc; [|done].
        injection Hrun as <- <-. do 2 (split; [done|]).
        eexists; split; [done|]. right; right; right. apply Hother.
        all: unfold subscript in Hsvc; destruct record; try (by injection Hsvc as <-).
        all: destruct (dict_get "services" entries); [done|]; by injection Hsvc as <-.
    + injection Hrun as <- <-. do 2 (split; [done|]).
      eexists; split; [done|]. right; right; left. by exists doc.
Qed.

Lemma load_service_info_failure_witness :
  let info := joinpath ARCHIVE_PATH "INFO" in
  let w' := logged ERROR (MsgLoadNotFound info) (called (SysReadText info) world_no_manifest) in
  load_service_info ARCHIVE_PATH "batch1" world_no_manifest = (inr (JList [], false), w') ∧
  JList [] = JList [] ∧
  fs w' = fs world_no_manifest ∧
  ∃ msg,
    w' = logged ERROR msg (called (SysReadText info) world_no_manifest) ∧
    ((read_json (fs world_no_manifest) info = inl FileNotFoundError
      ∧ msg = MsgLoadNotFound info) ∨
     (read_json (fs world_no_manifest) info = inl JSONDecodeError
      ∧ msg = MsgLoadInvalidJson info) ∨
     (∃ doc, read_json (fs world_no_manifest) info = inr doc ∧
             contains doc "batch1" = inr false ∧
             msg = MsgNotInInfo "batch1") ∨
     (∃ e, e ≠ FileNotFoundError ∧ e ≠ JSONDecodeError ∧ msg = MsgLoadFail info e)).
Proof.
  assert (Hrun : load_service_info ARCHIVE_PATH "batch1" world_no_manifest
                 = (inr (JList [], false),
                    logged ERROR (MsgLoadNotFound (joinpath ARCHIVE_PATH "INFO"))
                      (called (SysReadText (joinpath ARCHIVE_PATH "INFO")) world_no_manifest)))
    by (vm_compute; reflexivity).
  split; [exact Hrun|].
  exact (load_service_info_failure ARCHIVE_PATH "batch1" world_no_manifest _ _ Hrun).
Defined.

(** C4 (the claim as stated fails).  A missing manifest and a manifest
    that is not JSON are two of the four error conditions, and the
    caller receives the same value in both. *)
Lemma load_service_info_conditions_look_alike :
  let info := joinpath ARCHIVE_PATH "INFO" in
  read_json (fs world_no_manifest) info = inl FileNotFoundError ∧
  read_json (fs world_garbled_manifest) info = inl JSONDecodeError ∧
  fst (load_service_info ARCHIVE_PATH "batch1" world_no_manifest)
  = fst (load_service_info ARCHIVE_PATH "batch1" world_garbled_manifest).
Proof. by vm_compute. Qed.

(** ** The orchestrator *)

Lemma process_certificates_unfold (src_dir_name : string) (w : world) :
  process_certificates src_dir_name w
  = match load_service_info ARCHIVE_PATH src_dir_name w with
    | (inl e, w1) => (inl e, w1)
    | (inr (_, false), w1) => (inr false, w1)
    | (inr (services, true), w1) =>
        match iterate services with
        | inl e => (inl e, w1)
        | inr items => all_copied (joinpath ARCHIVE_PATH src_dir_name) items w1
        end
    end.
Proof.
  unfold process_certificates, bind.
  destruct (load_service_info ARCHIVE_PATH src_dir_name w) as [[e|[services [|]]] w1]; cbn;
    [done| |done].
  by destruct (iterate services).
Qed.

(** C5.  When manifest resolution fails, [process_certificates] returns
    false at once: the file system is the one it started from and the
    only file-system call issued is the read of the manifest, so no
    destination directory is created or written to. *)
Theorem process_certificates_manifest_failure (src_dir_name : string)
    (w w1 : world) (services : json) :
  load_service_info ARCHIVE_PATH src_dir_name w = (inr (services, false), w1) →
  process_certificates src_dir_name w = (inr false, w1) ∧
  fs w1 = fs w ∧
  calls w1 = calls w ++ [SysReadText (joinpath ARCHIVE_PATH "INFO")].
Proof.
  intros Hload. rewrite process_certificates_unfold, Hload. split; [done|].
  destruct (load_service_info_returns ARCHIVE_PATH src_dir_name w)
    as (? & ? & ? & Hrun & Hfs & Hcalls & _).
  rewrite Hload in Hrun. by injection Hrun as <- <- <-.
Qed.

Lemma process_certificates_manifest_failure_witness :
  let info := joinpath ARCHIVE_PATH "INFO" in
  let w1 := logged ERROR (MsgLoadInvalidJson info)
              (called (SysReadText info) world_garbled_manifest) in
  load_service_info ARCHIVE_PATH "batch1" world_garbled_manifest = (inr (JList [], false), w1) ∧
  process_certificates "batch1" world_garbled_manifest = (inr false, w1) ∧
  fs w1 = fs world_garbled_manifest ∧
  calls w1 = calls world_garbled_manifest ++ [SysReadText info].
Proof.
  assert (Hrun : load_service_info ARCHIVE_PATH "batch1" world_garbled_manifest
                 = (inr (JList [], false),
                    logged ERROR (MsgLoadInvalidJson (joinpath ARCHIVE_PATH "INFO"))
                      (called (SysReadText (joinpath ARCHIVE_PATH "INFO"))
                         world_garbled_manifest)))
    by (vm_compute; reflexivity).
  split; [exact Hrun|].
  exact (process_certificates_manifest_failure "batch1" world_garbled_manifest _ _ Hrun).
Defined.

(** C7.  When the manifest is a JSON object without the batch
    identifier as a key, [process_certificates] returns false; the only
    file-system call it issues is the read of [ARCHIVE_PATH/INFO]: no
    [copy2] is made, so nothing is read from the staging directory, and
    the file system is unchanged. *)
Theorem process_certificates_unregistered_batch (src_dir_name : string)
    (w : world) (entries : list (string * json)) :
  read_json (fs w) (joinpath ARCHIVE_PATH "INFO") = inr (JDict entries) →
  dict_get src_dir_name entries = None →
  ∃ w',
    process_certificates src_dir_name w = (inr false, w') ∧
    fs w' = fs w ∧
    calls w' = calls w ++ [SysReadText (joinpath ARCHIVE_PATH "INFO")] ∧
    logs w' = logs w ++ [(ERROR, MsgNotInInfo src_dir_name)].
Proof.
  intros Hread Habsent.
  rewrite process_certificates_unfold.
  rewrite (load_service_info_parsed _ _ _ _ Hread). cbn. rewrite Habsent. cbn.
  eexists. by split.
Qed.

Lemma process_certificates_unregistered_batch_witness :
  let info := joinpath ARCHIVE_PATH "INFO" in
  let entries := [("batch1", JDict [("services", JList [acme_web])])] in
  read_json (fs world_ready) info = inr (JDict entries) ∧
  dict_get "batch2" entries = None ∧
  ∃ w',
    process_certificates "batch2" world_ready = (inr false, w') ∧
    fs w' = fs world_ready ∧
    calls w' = calls world_ready ++ [SysReadText info] ∧
    logs w' = logs world_ready ++ [(ERROR, MsgNotInInfo "batch2")].
Proof.
  assert (Hread : read_json (fs world_ready) (joinpath ARCHIVE_PATH "INFO")
                  = inr (JDict [("batch1", JDict [("services", JList [acme_web])])]))
    by (vm_compute; reflexivity).
  split; [exact Hread|]. split; [reflexivity|].
  exact (process_certificates_unregistered_batch "batch2" world_ready _ Hread eq_refl).
Defined.

(** *** The loop over the certificate files *)

Lemma sys_copy2_run (src dest : path) (w : world) :
  ∃ err w',
    sys_copy2 src dest w = (outcome err, w') ∧
    calls w' = calls w ++ [SysCopy2 src dest err] ∧
    logs w' = logs w ∧ stderr w' = stderr w ∧
    (err ≠ None → fs w' = fs w).
Proof.
  unfold sys_copy2. destruct (copy2 src dest (fs w)) as [e|F'].
  - by exists (Some e), (called (SysCopy2 src dest (Some e)) w).
  - by exists None, (with_fs F' (called (SysCopy2 src dest None) w)).
Qed.

Lemma copy_cert_files_run (src_dir target_dir : path) (files : list string) :
  ∀ (success : bool) (w : world),
    ∃ errs w',
      copy_cert_files src_dir target_dir files success w
      = (inr (success && forallb copied errs), w') ∧
      length errs = length files ∧
      calls w' = calls w ++ zip_with (attempt_call src_dir target_dir) files errs ∧
      logs w' = logs w ++ concat (zip_with (attempt_warning src_dir target_dir) files errs) ∧
      stderr w' = stderr w.
Proof.
  induction files as [|cert_file rest IH]; intros success w.
  - exists [], w. cbn. rewrite andb_true_r, !app_nil_r. done.
  - cbn [copy_cert_files]. unfold bind at 1. unfold try_except, bind at 1.
    destruct (sys_copy2_run (joinpath src_dir cert_file) (joinpath target_dir cert_file) w)
      as (err & w1 & Hrun & Hcalls & Hlogs & Herr & _).
    rewrite Hrun. destruct err as [e|]; cbn.
    + destruct (IH false (logged WARNING
                  (MsgCopyFail (joinpath src_dir cert_file) (joinpath target_dir cert_file) e) w1))
        as (errs & w' & Hrest & Hlen & Hc & Hl & Hs).
      exists (Some e :: errs), w'. rewrite Hrest. cbn.
      rewrite andb_false_r. split; [done|]. split; [by rewrite Hlen|].
      rewrite Hc, Hl, Hs. cbn. rewrite Hcalls, Hlogs, <- !app_assoc. done.
    + destruct (IH success w1) as (errs & w' & Hrest & Hlen & Hc & Hl & Hs).
      exists (None :: errs), w'. rewrite Hrest. cbn.
      split; [done|]. split; [by rewrite Hlen|].
      rewrite Hc, Hl, Hs. cbn. rewrite Hcalls, Hlogs, <- !app_assoc. done.
Qed.

Lemma copy_certificates_unfold (src_dir : path) (service : json) (w : world) :
  copy_certificates src_dir service w
  = match prepare_target service w with
    | (inl e, w1) => (inl e, w1)
    | (inr target_dir, w1) => copy_cert_files src_dir target_dir CERT_FILES true w1
    end.
Proof. unfold copy_certificates, bind. by destruct (prepare_target service w) as [[|] ?]. Qed.



(** *** The loop over the services *)

(** C1 (the script departs from the claim).  With two services
    registered and nothing staged, the three copies of the first
    service fail and [process_certificates] returns false without
    touching the second service: no [mkdir] and no [copy2] is issued
    for it and its destination directory does not exist afterwards. *)
Theorem process_certificates_stops_at_first_failure :
  let src_dir := joinpath ARCHIVE_PATH "batch1" in
  let web := BASE_PATH ++ ["acme"; "web"] in
  let mail := BASE_PATH ++ ["acme"; "mail"] in
  let run := process_certificates "batch1" world_unstaged in
  iterate (JList [acme_web; acme_mail]) = inr [acme_web; acme_mail] ∧
  target_dir_of acme_mail = inr mail ∧
  fst run = inr false ∧
  calls (snd run)
  = [SysReadText (joinpath ARCHIVE_PATH "INFO");
     SysMkdir web None;
     attempt_call src_dir web "cert.pem" (Some FileNotFoundError);
     attempt_call src_dir web "privkey.pem" (Some FileNotFoundError);
     attempt_call src_dir web "fullchain.pem" (Some FileNotFoundError)] ∧
  is_dir (fs (snd run)) mail = false.
Proof. by vm_compute. Qed.

Lemma prepare_target_cases (service : json) (w : world) :
  prepare_target service w
  = match target_dir_of service with
    | inl e => (inl e, w)
    | inr target_dir =>
        let '(err, F') := path_mkdir target_dir (fs w) in
        let w1 := with_fs F' (called (SysMkdir target_dir err) w) in
        match err with
        | Some e => (inl e, w1)
        | None =>
            match subscript service "display_name" with
            | inl e => (inl e, w1)
            | inr display_name => (inr target_dir, logged INFO (MsgCopyCert display_name) w1)
            end
        end
    end.
Proof.
  unfold prepare_target, bind, lift, sys_mkdir.
  destruct (target_dir_of service) as [e|target_dir]; cbn; [done|].
  destruct (path_mkdir target_dir (fs w)) as [[e|] F']; cbn; [done|].
  by destruct (subscript service "display_name").
Qed.


Lemma copy_certificates_raises (src_dir : path) (service : json) (w w' : world) (e : exn) :
  copy_certificates src_dir service w = (inl e, w') →
  prepare_target service w = (inl e, w').
Proof.
  rewrite copy_certificates_unfold.
  destruct (prepare_target service w) as [[e0|target_dir] w1]; [by intros [= <- <-]|].
  destruct (copy_cert_files_run src_dir target_dir CERT_FILES true w1)
    as (errs & w2 & Hrun & _).
  by rewrite Hrun.
Qed.


Lemma all_copied_true (src_dir : path) (items : list json) :
  ∀ (w w' : world),
    all_copied src_dir items w = (inr true, w') ↔ every_service_copied src_dir items w w'.
Proof.
  induction items as [|service rest IH]; intros w w'; cbn [all_copied].
  - split.
    + intros [= <-]. constructor.
    + by inversion 1.
  - unfold bind. rewrite copy_certificates_unfold. split.
    + destruct (prepare_target service w) as [[e0|target_dir] w1] eqn:Hprep; [done|].
      destruct (copy_cert_files_run src_dir target_dir CERT_FILES true w1)
        as (errs & w2 & Hrun & Hlen & Hcalls & _).
      rewrite Hrun. cbn [andb].
      destruct (forallb copied errs) eqn:Hall; [|done].
      intros Hrest. apply IH in Hrest.
      eapply every_cons; [exact Hprep| by rewrite Hrun | | exact Hrest].
      rewrite Hcalls. f_equal.
      destruct errs as [|[|] [|[|] [|[|] [|? ?]]]]; try discriminate. done.
    + inversion 1 as [|? ? ? target_dir w1 w2 ? Hprep Hrun _ Hrest]; subst.
      rewrite Hprep, Hrun. by apply IH.
Qed.




(** *** Exit status *)




(** ** The file system: what the calls preserve *)

Lemma node_at_insert (F : fsmap) (loc l : list string) (n : node) :
  loc ≠ [] →
  node_at (<[loc := n]> F) l = if decide (loc = l) then Some n else node_at F l.
Proof.
  intros Hloc. destruct l as [|seg l]; cbn.
  - by rewrite decide_False.
  - apply lookup_insert.
Qed.

Lemma node_at_root_free (F : fsmap) (loc : list string) :
  node_at F loc ≠ Some Dir → loc ≠ [].
Proof. by intros H ->. Qed.

Lemma keeps_kinds_refl (F : fsmap) : keeps_kinds F F.
Proof. intros loc. destruct (node_at F loc) as [[|data mtime]|]; eauto. Qed.

Lemma keeps_kinds_trans (F1 F2 F3 : fsmap) :
  keeps_kinds F1 F2 → keeps_kinds F2 F3 → keeps_kinds F1 F3.
Proof.
  intros H12 H23 loc. specialize (H12 loc). specialize (H23 loc).
  destruct (node_at F1 loc) as [[|data mtime]|]; [| |done].
  - by rewrite H12 in H23.
  - destruct H12 as (d & m & H12). by rewrite H12 in H23.
Qed.

Lemma only_new_dirs_refl (F : fsmap) : only_new_dirs F F.
Proof. intros loc. by left. Qed.

Lemma only_new_dirs_trans (F1 F2 F3 : fsmap) :
  only_new_dirs F1 F2 → only_new_dirs F2 F3 → only_new_dirs F1 F3.
Proof.
  intros H12 H23 loc.
  destruct (H12 loc) as [H|[H H']], (H23 loc) as [G|[G G']].
  - left. congruence.
  - right. split; congruence.
  - right. split; congruence.
  - congruence.
Qed.

Lemma only_new_dirs_keeps_kinds (F F' : fsmap) : only_new_dirs F F' → keeps_kinds F F'.
Proof.
  intros H loc. destruct (H loc) as [Heq|[Hnone _]].
  - rewrite Heq. destruct (node_at F loc) as [[|data mtime]|]; eauto.
  - by rewrite Hnone.
Qed.

Lemma walk_keeps (F F' : fsmap) :
  keeps_kinds F F' →
  ∀ (p : path) (cur loc : list string), walk F cur p = inr loc → walk F' cur p = inr loc.
Proof.
  intros Hk p. induction p as [|seg rest IH]; intros cur loc; cbn; [done|].
  specialize (Hk cur).
  destruct (node_at F cur) as [[|data mtime]|]; [|done|done].
  rewrite Hk. apply IH.
Qed.

Lemma walk_app (F : fsmap) (p q : path) :
  ∀ cur, walk F cur (p ++ q)
         = match walk F cur p with
           | inr loc => walk F loc q
           | inl e => inl e
           end.
Proof.
  induction p as [|seg rest IH]; intros cur; cbn; [done|].
  destruct (node_at F cur) as [[|data mtime]|]; [apply IH|done|done].
Qed.


Lemma is_dir_resolves (F : fsmap) (p : path) :
  is_dir F p = true ↔ ∃ loc, resolve F p = inr loc ∧ node_at F loc = Some Dir.
Proof.
  unfold is_dir, stat. split.
  - destruct (resolve F p) as [e|loc]; [done|].
    destruct (node_at F loc) as [[|data mtime]|] eqn:Hnode; [intros _; by exists loc|done|done].
  - intros (loc & -> & ->). done.
Qed.

(** *** [mkdir] *)

Lemma os_mkdir_new_dir (p : path) (F F' : fsmap) :
  os_mkdir p F = inr F' →
  ∃ loc, resolve F p = inr loc ∧ node_at F loc = None ∧ F' = <[loc := Dir]> F.
Proof.
  unfold os_mkdir. destruct (resolve F p) as [e|loc]; [done|].
  destruct (node_at F loc) eqn:Hnode; [done|].
  intros [= <-]. by exists loc.
Qed.

Lemma insert_dir_only_new (F : fsmap) (loc : list string) :
  node_at F loc = None → only_new_dirs F (<[loc := Dir]> F).
Proof.
  intros Hnone l. assert (loc ≠ []) by (intros ->; done).
  rewrite node_at_insert by done. case_decide as Heq.
  - subst. by right.
  - by left.
Qed.

Lemma os_mkdir_only_new (p : path) (F F' : fsmap) :
  os_mkdir p F = inr F' → only_new_dirs F F'.
Proof.
  intros (loc & _ & Hnone & ->)%os_mkdir_new_dir. by apply insert_dir_only_new.
Qed.

Lemma os_mkdir_is_dir (p : path) (F F' : fsmap) :
  os_mkdir p F = inr F' → is_dir F' p = true.
Proof.
  intros Hmk. pose proof (os_mkdir_only_new _ _ _ Hmk) as Hnew.
  apply os_mkdir_new_dir in Hmk as (loc & Hres & Hnone & ->).
  apply is_dir_resolves. exists loc. split.
  - by apply (walk_keeps _ _ (only_new_dirs_keeps_kinds _ _ Hnew)).
  - rewrite node_at_insert by (intros ->; done). by rewrite decide_True.
Qed.

Lemma mkdir_exist_ok_result (p : path) (F F' : fsmap) (err : option exn) :
  mkdir_exist_ok p F = (err, F') →
  only_new_dirs F F' ∧ (err = None → is_dir F' p = true).
Proof.
  unfold mkdir_exist_ok.
  destruct (os_mkdir p F) as [e|F1] eqn:Hmk.
  - destruct (is_dir F p) eqn:Hdir;
      destruct e; intros [= <- <-]; (split; [apply only_new_dirs_refl|done]).
  - intros [= <- <-]. split; [by eapply os_mkdir_only_new|].
    intros _. by eapply os_mkdir_is_dir.
Qed.

Lemma mkdir_rev_result (rp : list string) :
  ∀ (F F' : fsmap) (err : option exn),
    mkdir_rev rp F = (err, F') →
    only_new_dirs F F' ∧ (err = None → is_dir F' (rev rp) = true).
Proof.
  induction rp as [|seg rparent IH]; intros F F' err; cbn [mkdir_rev].
  - destruct (os_mkdir (rev []) F) as [e|F1] eqn:Hmk.
    + destruct (is_dir F (rev [])) eqn:Hdir;
        destruct e; intros [= <- <-]; (split; [apply only_new_dirs_refl|done]).
    + intros [= <- <-]. split; [by eapply os_mkdir_only_new|].
      intros _. by eapply os_mkdir_is_dir.
  - destruct (os_mkdir (rev (seg :: rparent)) F) as [e|F1] eqn:Hmk.
    + assert (Hother : ∀ e', (if is_dir F (rev (seg :: rparent)) then (None, F)
                               else (Some e', F)) = (err, F') →
                only_new_dirs F F' ∧ (err = None → is_dir F' (rev (seg :: rparent)) = true)).
      { intros e'. destruct (is_dir F (rev (seg :: rparent))) eqn:Hdir;
          intros [= <- <-]; (split; [apply only_new_dirs_refl|done]). }
      destruct e; try apply Hother.
      destruct (mkdir_rev rparent F) as [[e1|] F1] eqn:Hparent.
      * intros [= <- <-]. split; [|done]. by eapply IH.
      * intros Hlast. apply mkdir_exist_ok_result in Hlast as [Hnew Hdir].
        split; [|done]. eapply only_new_dirs_trans; [|exact Hnew]. by eapply IH.
    + intros [= <- <-]. split; [by eapply os_mkdir_only_new|].
      intros _. by eapply os_mkdir_is_dir.
Qed.

Lemma path_mkdir_result (p : path) (F F' : fsmap) (err : option exn) :
  path_mkdir p F = (err, F') →
  only_new_dirs F F' ∧ (err = None → is_dir F' p = true).
Proof.
  unfold path_mkdir. intros H%mkdir_rev_result. by rewrite rev_involutive in H.
Qed.


(** *** [copy2] *)

Lemma open_read_file (F : fsmap) (p : path) (data : content) (mtime : Z) :
  open_read F p = inr (data, mtime) ↔
  ∃ loc, resolve F p = inr loc ∧ node_at F loc = Some (File data mtime).
Proof.
  unfold open_read. split.
  - destruct (resolve F p) as [e|loc]; [done|].
    destruct (node_at F loc) as [[|d m]|] eqn:Hnode; [done| |done].
    intros [= <- <-]. by exists loc.
  - intros (loc & -> & ->). done.
Qed.

Lemma copy2_writes (src dst : path) (F F' : fsmap) :
  copy2 src dst F = inr F' →
  ∃ sloc loc data mtime,
    resolve F src = inr sloc ∧
    node_at F sloc = Some (File data mtime) ∧
    resolve F (copy_target F src dst) = inr loc ∧
    node_at F loc ≠ Some Dir ∧
    sloc ≠ loc ∧
    F' = <[loc := File data mtime]> F.
Proof.
  unfold copy2.
  set (dst' := copy_target F src dst).
  destruct (samefile F src dst') eqn:Hsame; [done|].
  destruct (open_read F src) as [e|[data mtime]] eqn:Hopen; [done|].
  apply open_read_file in Hopen as (sloc & Hsrc & Hnode).
  destruct (resolve F dst') as [e|loc] eqn:Hdst; [done|].
  intros Hwrite. exists sloc, loc, data, mtime.
  assert (Hfree : node_at F loc ≠ Some Dir) by (by destruct (node_at F loc) as [[|]|]).
  assert (Hdiff : sloc ≠ loc).
  { intros <-. unfold samefile, stat in Hsame. rewrite Hsrc, Hdst, Hnode in Hsame.
    by rewrite bool_decide_eq_false in Hsame. }
  repeat split; try done.
  destruct (node_at F loc) as [[|d m]|]; first [done | by injection Hwrite as <-].
Qed.

Lemma insert_file_keeps_kinds (F : fsmap) (loc : list string) (data : content) (mtime : Z) :
  node_at F loc ≠ Some Dir → keeps_kinds F (<[loc := File data mtime]> F).
Proof.
  intros Hfree l. rewrite node_at_insert by by eapply node_at_root_free.
  case_decide as Heq.
  - subst. destruct (node_at F l) as [[|d m]|]; [done|eauto|done].
  - destruct (node_at F l) as [[|d m]|]; eauto.
Qed.







(** ** Running a batch twice *)

Lemma cert_file_part (p : path) (cert_file : string) :
  In cert_file CERT_FILES →
  joinpath p cert_file = p ++ [cert_file] ∧ String.eqb cert_file ".." = false.
Proof. intros [<-|[<-|[<-|[]]]]; by split. Qed.

Lemma resolve_snoc (F : fsmap) (p : path) (seg : string) (loc : list string) :
  String.eqb seg ".." = false →
  resolve F (p ++ [seg]) = inr loc →
  ∃ ploc, resolve F p = inr ploc ∧ loc = ploc ++ [seg].
Proof.
  intros Hseg. unfold resolve. rewrite walk_app.
  destruct (walk F [] p) as [e|ploc]; [done|]. cbn.
  destruct (node_at F ploc) as [[|data mtime]|]; [|done|done].
  unfold step_into. rewrite Hseg. intros [= <-]. by exists ploc.
Qed.


Lemma copy2_batch_step (src_dir target_dir : path) (cert_file : string) (F F' : fsmap) :
  In cert_file CERT_FILES →
  copy2 (joinpath src_dir cert_file) (joinpath target_dir cert_file) F = inr F' →
  batch_step src_dir F F'.
Proof.
  intros Hcert (sloc & loc & data & mtime & Hsrc & Hnode & Hdst & Hfree & Hdiff & ->)%copy2_writes.
  eapply (step_file _ _ _ cert_file sloc loc); try done.
  destruct (cert_file_part src_dir _ Hcert) as [Hs Hseg].
  destruct (cert_file_part target_dir _ Hcert) as [Ht _].
  unfold copy_target, basename in Hdst. rewrite Hs, Ht, last_last in Hdst.
  destruct (is_dir F (target_dir ++ [cert_file]));
    apply resolve_snoc in Hdst as (ploc & _ & ->); try done; apply last_snoc.
Qed.

Lemma batch_step_keeps_kinds (src_dir : path) (F F' : fsmap) :
  batch_step src_dir F F' → keeps_kinds F F'.
Proof.
  intros [Hnew|cert_file sloc loc data mtime _ _ _ _ Hfree _ ->].
  - by apply only_new_dirs_keeps_kinds.
  - by apply insert_file_keeps_kinds.
Qed.





Lemma batch_steps_keep_kinds (src_dir : path) (F F' : fsmap) :
  rtc (batch_step src_dir) F F' → keeps_kinds F F'.
Proof.
  induction 1 as [|F1 F2 F3 Hstep _ IH]; [apply keeps_kinds_refl|].
  eapply keeps_kinds_trans; [|exact IH]. by eapply batch_step_keeps_kinds.
Qed.














(** ** What any run leaves alone *)

Lemma prepare_target_steps (src_dir : path) (service : json) (w : world) :
  rtc (batch_step src_dir) (fs w) (fs (snd (prepare_target service w))).
Proof.
  rewrite prepare_target_cases.
  destruct (target_dir_of service) as [e|target_dir]; [done|].
  destruct (path_mkdir target_dir (fs w)) as [err F1] eqn:Hmk.
  apply path_mkdir_result in Hmk as [Hnew _].
  assert (Hstep : rtc (batch_step src_dir) (fs w) F1) by by apply rtc_once, step_dirs.
  destruct err as [e|]; [done|].
  by destruct (subscript service "display_name").
Qed.

Lemma copy_cert_files_steps (src_dir target_dir : path) (files : list string) :
  (∀ cert_file, In cert_file files → In cert_file CERT_FILES) →
  ∀ (success : bool) (w : world),
    rtc (batch_step src_dir) (fs w)
      (fs (snd (copy_cert_files src_dir target_dir files success w))).
Proof.
  induction files as [|cert_file rest IH]; intros Hcert success w; cbn [copy_cert_files].
  - done.
  - unfold bind at 1. unfold try_except, bind at 1. unfold sys_copy2.
    assert (Hrest : ∀ f, In f rest → In f CERT_FILES) by (intros f Hf; apply Hcert; by right).
    destruct (copy2 (joinpath src_dir cert_file) (joinpath target_dir cert_file) (fs w))
      as [e|F1] eqn:Hcopy; cbn.
    + set (w1 := logged _ _ _). change (fs w) with (fs w1). by apply IH.
    + set (w1 := with_fs _ _).
      eapply rtc_l; [|change F1 with (fs w1); by apply IH].
      eapply copy2_batch_step; [|exact Hcopy]. apply Hcert. by left.
Qed.

Lemma copy_certificates_steps (src_dir : path) (service : json) (w : world) :
  rtc (batch_step src_dir) (fs w) (fs (snd (copy_certificates src_dir service w))).
Proof.
  rewrite copy_certificates_unfold.
  pose proof (prepare_target_steps src_dir service w) as Hprep.
  destruct (prepare_target service w) as [[e|target_dir] w1]; [done|].
  etrans; [exact Hprep|]. by apply copy_cert_files_steps.
Qed.

Lemma all_copied_steps (src_dir : path) (items : list json) :
  ∀ w, rtc (batch_step src_dir) (fs w) (fs (snd (all_copied src_dir items w))).
Proof.
  induction items as [|service rest IH]; intros w; cbn [all_copied]; [done|].
  unfold bind. pose proof (copy_certificates_steps src_dir service w) as Hfirst.
  destruct (copy_certificates src_dir service w) as [[e|[|]] w1]; [done| |done].
  etrans; [exact Hfirst|apply IH].
Qed.

Lemma process_certificates_steps (src_dir_name : string) (w : world) :
  rtc (batch_step (joinpath ARCHIVE_PATH src_dir_name))
    (fs w) (fs (snd (process_certificates src_dir_name w))).
Proof.
  rewrite process_certificates_unfold.
  destruct (load_service_info_returns ARCHIVE_PATH src_dir_name w)
    as (services & success & w1 & Hload & Hfs & _).
  rewrite Hload. destruct success; [|by rewrite <- Hfs].
  destruct (iterate services) as [e|items]; [by rewrite <- Hfs|].
  rewrite <- Hfs. apply all_copied_steps.
Qed.



(** X1.  Whatever its outcome, a run of [process_certificates] removes
    nothing and changes the kind of nothing: every directory is still a
    directory and every regular file still a regular file afterwards. *)
Theorem process_certificates_keeps_kinds (src_dir_name : string) (w : world) :
  keeps_kinds (fs w) (fs (snd (process_certificates src_dir_name w))).
Proof.
  eapply batch_steps_keep_kinds, process_certificates_steps.
Qed.





(** ** What a run delivers *)







(** X6.  When [copy_certificates] raises, no file has been copied: the
    file system differs from the one before the call at most by the
    directories a failing [mkdir] created on its way, the only call
    issued is that [mkdir], and nothing is logged. *)
Theorem copy_certificates_raise_copies_nothing (src_dir : path) (service : json)
    (w w' : world) (e : exn) :
  copy_certificates src_dir service w = (inl e, w') →
  only_new_dirs (fs w) (fs w') ∧
  logs w' = logs w ∧
  (calls w' = calls w ∨
   ∃ target_dir err,
     target_dir_of service = inr target_dir ∧
     calls w' = calls w ++ [SysMkdir target_dir err]).
Proof.
  intros Hraise%copy_certificates_raises. revert Hraise.
  rewrite prepare_target_cases.
  destruct (target_dir_of service) as [e0|target_dir].
  { intros [= <- <-]. split; [apply only_new_dirs_refl|]. split; [done|by left]. }
  destruct (path_mkdir target_dir (fs w)) as [err F1] eqn:Hmk.
  apply path_mkdir_result in Hmk as [Hnew _].
  destruct err as [e0|].
  - intros [= <- <-]. cbn. split; [done|]. split; [done|].
    right. by exists target_dir, (Some e0).
  - destruct (subscript service "display_name") as [e0|display_name]; [|done].
    intros [= <- <-]. cbn. split; [done|]. split; [done|].
    right. by exists target_dir, None.
Qed.

Lemma copy_certificates_raise_copies_nothing_witness :
  let src_dir := joinpath ARCHIVE_PATH "batch1" in
  let w' := snd (copy_certificates src_dir acme_web world_blocked) in
  copy_certificates src_dir acme_web world_blocked = (inl NotADirectoryError, w') ∧
  only_new_dirs (fs world_blocked) (fs w') ∧
  logs w' = logs world_blocked ∧
  (calls w' = calls world_blocked ∨
   ∃ target_dir err,
     target_dir_of acme_web = inr target_dir ∧
     calls w' = calls world_blocked ++ [SysMkdir target_dir err]).
Proof.
  assert (Hrun : copy_certificates (joinpath ARCHIVE_PATH "batch1") acme_web world_blocked
                 = (inl NotADirectoryError,
                    snd (copy_certificates (joinpath ARCHIVE_PATH "batch1") acme_web
                           world_blocked)))
    by (vm_compute; reflexivity).
  split; [exact Hrun|].
  exact (copy_certificates_raise_copies_nothing _ acme_web world_blocked _ _ Hrun).
Defined.

(** ** Edge cases of the manifest and of the service list *)

Lemma all_copied_app (src_dir : path) (served later : list json) :
  ∀ w, all_copied src_dir (served ++ later) w
       = match all_copied src_dir served w with
         | (inr true, w1) => all_copied src_dir later w1
         | other => other
         end.
Proof.
  induction served as [|service rest IH]; intros w; cbn [all_copied app]; [done|].
  unfold bind. destruct (copy_certificates src_dir service w) as [[e|[|]] w1]; [done| |done].
  apply IH.
Qed.

Lemma all_copied_false (src_dir : path) (items : list json) :
  ∀ w w',
    all_copied src_dir items w = (inr false, w') ↔
    ∃ served failing rest w1,
      items = served ++ failing :: rest ∧
      every_service_copied src_dir served w w1 ∧
      copy_certificates src_dir failing w1 = (inr false, w').
Proof.
  intros w w'. split.
  - revert w. induction items as [|service rest IH]; intros w; cbn [all_copied]; [done|].
    unfold bind.
    destruct (copy_certificates src_dir service w) as [[e|[|]] w1] eqn:Hfirst; [done| |].
    + intros (served & failing & rest' & w2 & -> & Hserved & Hfail)%IH.
      exists (service :: served), failing, rest', w2. split; [done|]. split; [|done].
      apply all_copied_true. cbn [all_copied]. unfold bind. rewrite Hfirst.
      by apply all_copied_true.
    + intros [= <-]. exists [], service, rest, w. split; [done|]. split; [constructor|done].
  - intros (served & failing & rest & w1 & -> & Hserved%all_copied_true & Hfail).
    rewrite all_copied_app, Hserved. cbn [all_copied]. unfold bind. by rewrite Hfail.
Qed.

(** X7.  [process_certificates] returns false in exactly two ways:
    the manifest does not resolve the batch, or some service is the
    first whose copy fails; in the second case the world it returns is
    the one that service left, so the services listed after it are not
    touched. *)
Theorem process_certificates_false_cases (src_dir_name : string) (w w' : world) :
  process_certificates src_dir_name w = (inr false, w') ↔
  (∃ services,
     load_service_info ARCHIVE_PATH src_dir_name w = (inr (services, false), w')) ∨
  (∃ services items served failing rest w0 w1,
     load_service_info ARCHIVE_PATH src_dir_name w = (inr (services, true), w0) ∧
     iterate services = inr items ∧
     items = served ++ failing :: rest ∧
     every_service_copied (joinpath ARCHIVE_PATH src_dir_name) served w0 w1 ∧
     copy_certificates (joinpath ARCHIVE_PATH src_dir_name) failing w1 = (inr false, w')).
Proof.
  rewrite process_certificates_unfold.
  destruct (load_service_info_returns ARCHIVE_PATH src_dir_name w)
    as (services & success & w0 & Hload & _).
  rewrite Hload. split.
  - destruct success.
    + destruct (iterate services) as [e|items] eqn:Hiter; [done|].
      intros (served & failing & rest & w1 & Hitems & Hserved & Hfail)%all_copied_false.
      right. by exists services, items, served, failing, rest, w0, w1.
    + intros [= <-]. left. by exists services.
  - intros [(services' & [= <- -> <-])
           |(services' & items & served & failing & rest & w0' & w1
             & [= <- -> <-] & Hiter & Hitems & Hserved & Hfail)]; [done|].
    rewrite Hiter. apply all_copied_false. by exists served, failing, rest, w1.
Qed.

(** X8.  A batch registered with an empty service list ([[]], and
    likewise [{}] or the empty string) succeeds vacuously:
    [process_certificates] returns true after reading the manifest and
    does nothing else. *)
Theorem process_certificates_empty_services (src_dir_name : string) (w : world)
    (services : json) :
  registered ARCHIVE_PATH src_dir_name (fs w) services →
  services = JList [] ∨ services = JDict [] ∨ services = JStr "" →
  process_certificates src_dir_name w
  = (inr true, called (SysReadText (joinpath ARCHIVE_PATH "INFO")) w).
Proof.
  intros Hreg Hempty.
  rewrite process_certificates_unfold, (registered_loads _ _ _ _ Hreg).
  by destruct Hempty as [->|[->| ->]].
Qed.

Lemma process_certificates_empty_services_witness :
  registered ARCHIVE_PATH "batch1" (fs world_no_services) (JDict []) ∧
  (JDict [] = JList [] ∨ JDict [] = JDict [] ∨ JDict [] = JStr "") ∧
  process_certificates "batch1" world_no_services
  = (inr true, called (SysReadText (joinpath ARCHIVE_PATH "INFO")) world_no_services).
Proof.
  assert (Hreg : registered ARCHIVE_PATH "batch1" (fs world_no_services) (JDict [])).
  { exists (manifest_of (JDict [])), (JDict [("services", JDict [])]).
    repeat split; vm_compute; reflexivity. }
  assert (Hempty : JDict [] = JList [] ∨ JDict [] = JDict [] ∨ JDict [] = JStr "")
    by (right; by left).
  split; [exact Hreg|]. split; [exact Hempty|].
  exact (process_certificates_empty_services "batch1" world_no_services _ Hreg Hempty).
Defined.

(** X9.  The services of a batch have to be a list of descriptors: when
    the batch is registered with a non-empty object (say, descriptors
    keyed by name) or a non-empty string, the loop runs over the keys,
    respectively the characters, and [process_certificates] raises
    [TypeError] at the first of them, before any [mkdir] or copy. *)
Theorem process_certificates_services_not_a_list (src_dir_name : string) (w : world)
    (services : json) :
  registered ARCHIVE_PATH src_dir_name (fs w) services →
  (∃ key value rest, services = JDict ((key, value) :: rest)) ∨
  (∃ c rest, services = JStr (String c rest)) →
  process_certificates src_dir_name w
  = (inl TypeError, called (SysReadText (joinpath ARCHIVE_PATH "INFO")) w).
Proof.
  intros Hreg Hshape.
  rewrite process_certificates_unfold, (registered_loads _ _ _ _ Hreg).
  by destruct Hshape as [(key & value & rest & ->)|(c & rest & ->)].
Qed.

Lemma process_certificates_services_not_a_list_witness :
  let services := JDict [("web", acme_web)] in
  registered ARCHIVE_PATH "batch1" (fs world_services_by_name) services ∧
  ((∃ key value rest, services = JDict ((key, value) :: rest)) ∨
   (∃ c rest, services = JStr (String c rest))) ∧
  process_certificates "batch1" world_services_by_name
  = (inl TypeError, called (SysReadText (joinpath ARCHIVE_PATH "INFO")) world_services_by_name).
Proof.
  assert (Hreg : registered ARCHIVE_PATH "batch1" (fs world_services_by_name)
                   (JDict [("web", acme_web)])).
  { exists (manifest_of (JDict [("web", acme_web)])),
           (JDict [("services", JDict [("web", acme_web)])]).
    repeat split; vm_compute; reflexivity. }
  assert (Hshape : (∃ key value rest,
                      JDict [("web", acme_web)] = JDict ((key, value) :: rest)) ∨
                   (∃ c rest, JDict [("web", acme_web)] = JStr (String c rest)))
    by (left; by exists "web", acme_web, []).
  split; [exact Hreg|]. split; [exact Hshape|].
  exact (process_certificates_services_not_a_list "batch1" world_services_by_name _
           Hreg Hshape).
Defined.

(** X10.  When the manifest parses to anything but an object,
    [load_service_info] fails with [([], False)] and the record tells
    which way: if the [in] test answers false (a list without the batch
    name as an element, a string without it as a substring) the batch
    is reported as not found in the INFO file; in every other case (the
    test raises, or it answers true and the subscript then raises) the
    generic load failure with [TypeError] is reported. *)
Theorem load_service_info_manifest_not_an_object (archive_path : path)
    (src_dir_name : string) (w : world) (doc : json) :
  let info := joinpath archive_path "INFO" in
  read_json (fs w) info = inr doc →
  (∀ entries, doc ≠ JDict entries) →
  load_service_info archive_path src_dir_name w
  = (inr (JList [], false),
     logged ERROR
       (match contains doc src_dir_name with
        | inr false => MsgNotInInfo src_dir_name
        | _ => MsgLoadFail info TypeError
        end)
       (called (SysReadText info) w)).
Proof.
  intros info Hread Hshape.
  rewrite (load_service_info_parsed _ _ _ _ Hread). cbn zeta. fold info.
  destruct doc as [| | | | s|items|entries]; cbn; try done.
  - by destruct (bool_decide _).
  - by destruct (existsb _ _).
  - by destruct (Hshape entries).
Qed.

Lemma load_service_info_manifest_not_an_object_witness :
  let info := joinpath ARCHIVE_PATH "INFO" in
  let doc := JList [JStr "batch1"] in
  read_json (fs world_manifest_list) info = inr doc ∧
  (∀ entries, doc ≠ JDict entries) ∧
  load_service_info ARCHIVE_PATH "batch1" world_manifest_list
  = (inr (JList [], false),
     logged ERROR
       (match contains doc "batch1" with
        | inr false => MsgNotInInfo "batch1"
        | _ => MsgLoadFail info TypeError
        end)
       (called (SysReadText info) world_manifest_list)).
Proof.
  assert (Hread : read_json (fs world_manifest_list) (joinpath ARCHIVE_PATH "INFO")
                  = inr (JList [JStr "batch1"]))
    by (vm_compute; reflexivity).
  assert (Hshape : ∀ entries, JList [JStr "batch1"] ≠ JDict entries) by done.
  split; [exact Hread|]. split; [exact Hshape|].
  exact (load_service_info_manifest_not_an_object ARCHIVE_PATH "batch1"
           world_manifest_list _ Hread Hshape).
Defined.

(** ** The calls and the log records of a run *)

Lemma trace_ok_nil (src_dir : path) : trace_ok src_dir [] [].
Proof. split; [done|]. split; [by intros ? ? ? []|by intros ? []]. Qed.

Lemma trace_ok_app (src_dir : path) (nc1 nc2 : list syscall)
    (nl1 nl2 : list (level * log_msg)) :
  trace_ok src_dir nc1 nl1 → trace_ok src_dir nc2 nl2 →
  trace_ok src_dir (nc1 ++ nc2) (nl1 ++ nl2).
Proof.
  intros (Hw1 & Hc1 & Hr1) (Hw2 & Hc2 & Hr2). split; [|split].
  - by rewrite !omap_app, Hw1, Hw2.
  - intros src dest err [Hin|Hin]%in_app_or.
    + destruct (Hc1 _ _ _ Hin) as (td & f & Hf & Hs & Hd & Hmk).
      exists td, f. repeat split; try done. apply in_or_app. by left.
    + destruct (Hc2 _ _ _ Hin) as (td & f & Hf & Hs & Hd & Hmk).
      exists td, f. repeat split; try done. apply in_or_app. by right.
  - intros p [Hin|Hin]%in_app_or; [by eapply Hr1|by eapply Hr2].
Qed.

Lemma attempts_warned (src_dir target_dir : path) (files : list string) :
  ∀ errs,
    omap warning_of (concat (zip_with (attempt_warning src_dir target_dir) files errs))
    = omap failed_copy (zip_with (attempt_call src_dir target_dir) files errs).
Proof.
  induction files as [|cert_file rest IH]; intros [|[e|] errs]; cbn; try done.
  by rewrite IH.
Qed.

Lemma attempts_are_copies (src_dir target_dir : path) (files : list string) :
  ∀ errs c,
    In c (zip_with (attempt_call src_dir target_dir) files errs) →
    ∃ cert_file err,
      In cert_file files ∧
      c = SysCopy2 (joinpath src_dir cert_file) (joinpath target_dir cert_file) err.
Proof.
  induction files as [|cert_file rest IH]; intros [|e errs] c; cbn; try done.
  intros [<-|Hin].
  - exists cert_file, e. split; [by left|done].
  - destruct (IH _ _ Hin) as (f & err & Hf & ->). exists f, err. split; [by right|done].
Qed.

Lemma copy_certificates_trace (src_dir : path) (service : json) (w : world) :
  ∃ nc nl,
    calls (snd (copy_certificates src_dir service w)) = calls w ++ nc ∧
    logs (snd (copy_certificates src_dir service w)) = logs w ++ nl ∧
    trace_ok src_dir nc nl.
Proof.
  assert (Hmkdir : ∀ target_dir err, trace_ok src_dir [SysMkdir target_dir err] []).
  { intros td err. split; [done|]. split.
    - by intros ? ? ? [|[]].
    - by intros ? [|[]]. }
  rewrite copy_certificates_unfold, prepare_target_cases.
  destruct (target_dir_of service) as [e|target_dir].
  { exists [], []. cbn. rewrite !app_nil_r. split; [done|]. split; [done|apply trace_ok_nil]. }
  destruct (path_mkdir target_dir (fs w)) as [[e|] F1].
  { exists [SysMkdir target_dir (Some e)], []. cbn. rewrite app_nil_r. eauto. }
  destruct (subscript service "display_name") as [e|display_name].
  { exists [SysMkdir target_dir None], []. cbn. rewrite app_nil_r. eauto. }
  cbv beta iota zeta. set (w1 := logged INFO _ _).
  destruct (copy_cert_files_run src_dir target_dir CERT_FILES true w1)
    as (errs & w' & Hrun & _ & Hcalls & Hlogs & _).
  rewrite Hrun. cbn [snd].
  exists (SysMkdir target_dir None :: zip_with (attempt_call src_dir target_dir) CERT_FILES errs),
         ((INFO, MsgCopyCert display_name)
          :: concat (zip_with (attempt_warning src_dir target_dir) CERT_FILES errs)).
  split; [by rewrite Hcalls; subst w1; cbn; rewrite <- app_assoc|].
  split; [by rewrite Hlogs; subst w1; cbn; rewrite <- app_assoc|].
  split; [|split].
  - cbn [omap warning_of failed_copy]. apply attempts_warned.
  - intros src dest err [Heq|Hin]; [done|].
    apply attempts_are_copies in Hin as (f & err' & Hf & [= -> -> ->]).
    exists target_dir, f. repeat split; try done. by left.
  - intros p [Heq|Hin]; [done|].
    by apply attempts_are_copies in Hin as (f & err' & _ & Heq).
Qed.

Lemma all_copied_trace (src_dir : path) (items : list json) :
  ∀ w, ∃ nc nl,
    calls (snd (all_copied src_dir items w)) = calls w ++ nc ∧
    logs (snd (all_copied src_dir items w)) = logs w ++ nl ∧
    trace_ok src_dir nc nl.
Proof.
  induction items as [|service rest IH]; intros w; cbn [all_copied].
  - exists [], []. cbn. rewrite !app_nil_r. split; [done|]. split; [done|apply trace_ok_nil].
  - unfold bind.
    destruct (copy_certificates_trace src_dir service w) as (nc & nl & Hcalls & Hlogs & Hok).
    destruct (copy_certificates src_dir service w) as [[e|[|]] w1]; cbn [snd] in *;
      [by exists nc, nl| |by exists nc, nl].
    destruct (IH w1) as (nc' & nl' & Hcalls' & Hlogs' & Hok').
    exists (nc ++ nc'), (nl ++ nl').
    rewrite Hcalls', Hlogs', Hcalls, Hlogs, <- !app_assoc.
    split; [done|]. split; [done|by apply trace_ok_app].
Qed.

(** The run of [process_certificates] as a whole: the read of the
    manifest, then a stretch [nc] of calls; [nl] is everything logged. *)
Lemma process_certificates_trace (src_dir_name : string) (w : world) :
  ∃ nc nl nl',
    calls (snd (process_certificates src_dir_name w))
    = calls w ++ SysReadText (joinpath ARCHIVE_PATH "INFO") :: nc ∧
    logs (snd (process_certificates src_dir_name w)) = logs w ++ nl' ++ nl ∧
    omap warning_of nl' = [] ∧
    trace_ok (joinpath ARCHIVE_PATH src_dir_name) nc nl.
Proof.
  rewrite process_certificates_unfold.
  destruct (load_service_info_returns ARCHIVE_PATH src_dir_name w)
    as (services & success & w1 & Hload & _ & Hcalls & _ & Hok & Hfail).
  rewrite Hload. destruct success.
  - destruct (Hok eq_refl) as [_ Hlogs].
    destruct (iterate services) as [e|items].
    + exists [], [], []. cbn. rewrite Hcalls, Hlogs, app_nil_r.
      do 3 (split; [done|]). apply trace_ok_nil.
    + destruct (all_copied_trace (joinpath ARCHIVE_PATH src_dir_name) items w1)
        as (nc & nl & Hcalls' & Hlogs' & Htrace).
      exists nc, nl, []. rewrite Hcalls', Hlogs', Hcalls, Hlogs, <- app_assoc.
      by do 3 (split; [done|]).
  - destruct (Hfail eq_refl) as [_ [msg Hlogs]].
    exists [], [], [(ERROR, msg)]. cbn. rewrite Hcalls, Hlogs.
    do 3 (split; [done|]). apply trace_ok_nil.
Qed.

(** X11.  Over a whole run of [process_certificates] the WARNING
    records are exactly the failed copies: each [copy2] call that
    raised is logged once as a warning naming its source, destination
    and exception, in the order of the calls, and no other warning is
    logged. *)
Theorem process_certificates_warns_failed_copies (src_dir_name : string) (w : world) :
  ∃ nc nl,
    calls (snd (process_certificates src_dir_name w)) = calls w ++ nc ∧
    logs (snd (process_certificates src_dir_name w)) = logs w ++ nl ∧
    omap warning_of nl = omap failed_copy nc.
Proof.
  destruct (process_certificates_trace src_dir_name w)
    as (nc & nl & nl' & Hcalls & Hlogs & Hquiet & Hwarn & _).
  exists (SysReadText (joinpath ARCHIVE_PATH "INFO") :: nc), (nl' ++ nl).
  split; [done|]. split; [done|].
  by rewrite omap_app, Hquiet.
Qed.


(** X13.  A run of [process_certificates] reads the manifest exactly
    once, as its first call, and reads no other file as text. *)
Theorem process_certificates_reads_manifest_once (src_dir_name : string) (w : world) :
  ∃ nc,
    calls (snd (process_certificates src_dir_name w))
    = calls w ++ SysReadText (joinpath ARCHIVE_PATH "INFO") :: nc ∧
    ∀ p, ¬ In (SysReadText p) nc.
Proof.
  destruct (process_certificates_trace src_dir_name w)
    as (nc & nl & nl' & Hcalls & _ & _ & _ & _ & Hreads).
  by exists nc.
Qed.

(** ** Console output *)

(** X14.  [ConsoleFormatter.format] never raises and puts the level
    tag between a colour code and the reset code; INFO records get the
    table's green and ERROR records its red, but WARNING records get
    the reset code as their colour, because the table's key is [WARN]
    while the level is named [WARNING]. *)
Theorem format_colours (timestamp message : string) (lvl : level) :
  let reset := (ESC ++ "[0m")%string in
  let colour := match lvl with
                | INFO => (ESC ++ "[0;32m")%string
                | WARNING => reset
                | ERROR => (ESC ++ "[1;31m")%string
                end in
  format timestamp lvl message
  = inr (timestamp ++ " " ++ colour ++ "[" ++ levelname lvl ++ "]" ++ reset
         ++ " " ++ message)%string.
Proof. by destruct lvl. Qed.

(** ** The destination path *)

(** X15.  The destination is built with pathlib's [/], so an absolute
    [service] name replaces everything before it: whatever [isPkg]
    says and whatever string [subscriber] is, the destination directory
    is the path named by [service] itself, outside the two certificate
    roots unless it names a place under them. *)
Theorem target_dir_of_absolute_service (service is_pkg : json) (subscriber name : string) :
  subscript service "isPkg" = inr is_pkg →
  subscript service "subscriber" = inr (JStr subscriber) →
  subscript service "service" = inr (JStr name) →
  is_absolute name = true →
  target_dir_of service = inr (parts name).
Proof.
  intros Hpkg Hsub Hname Habs. unfold target_dir_of.
  rewrite Hpkg, Hsub. cbn [truediv]. rewrite Hname. cbn [truediv].
  unfold joinpath at 1. by rewrite Habs.
Qed.

Lemma target_dir_of_absolute_service_witness :
  let service := descriptor true "acme" "/tmp/certs" "ACME" in
  subscript service "isPkg" = inr (JBool true) ∧
  subscript service "subscriber" = inr (JStr "acme") ∧
  subscript service "service" = inr (JStr "/tmp/certs") ∧
  is_absolute "/tmp/certs" = true ∧
  target_dir_of service = inr (parts "/tmp/certs").
Proof.
  do 4 (split; [reflexivity|]).
  exact (target_dir_of_absolute_service (descriptor true "acme" "/tmp/certs" "ACME")
           (JBool true) "acme" "/tmp/certs" eq_refl eq_refl eq_refl eq_refl).
Defined.
